(** * lemmy.pipe.component: the spaCy pipeline component of lemmy

    A shallow embedding of [src/lemmy/pipe/component.py]: the class
    [LemmyPipelineComponent] ([__init__], [__call__], [_get_lemma]) and the
    module-level [load].

    The component talks to three things it does not own: the wrapped
    lemmatizer object ([self._internal]), the tokens of the [Doc] it is
    handed, and spaCy's constant [PRON_LEMMA].  The lemmatizer is an
    interface (a type class below), the document is a list of token records
    held in the store and updated by index, and [PRON_LEMMA] is a section
    variable. *)

From stdpp Require Import base list strings gmap.

(** ** Python values, truthiness and equality *)

(** The values a lemma can take here: a [str] or [None]. *)
Inductive value : Type :=
  | VNone
  | VStr (s : string).

#[global] Instance value_eq_dec : EqDecision value.
Proof. solve_decision. Defined.

(** [bool(v)]: [None] and the empty string are falsy, every other string is
    truthy. *)
Definition truthy (v : value) : bool :=
  match v with
  | VNone => false
  | VStr s => negb (String.eqb s "")
  end.

(** [a == b] for a string [a] and a value [b]: a string never equals
    [None]; two strings are compared character by character. *)
Definition str_eq (a : string) (b : value) : bool :=
  match b with
  | VNone => false
  | VStr s => String.eqb a s
  end.

(** ** Exceptions and outcomes *)

Inductive exn : Type :=
  | IndexError
  | ResourceNotFoundError
  | OtherError (name : string).

Inductive outcome (A : Type) : Type :=
  | Ok (a : A)
  | Raise (e : exn).
Arguments Ok {A} a.
Arguments Raise {A} e.

(** ** The host document *)

(** A token view: [pos_], [text] and [orth_] are read, [lemma_] is written. *)
Record Token : Type := mkToken {
  pos_ : string;
  text : string;
  orth_ : string;
  lemma_ : value
}.

(** [token.lemma_ = v] *)
Definition with_lemma (t : Token) (v : value) : Token :=
  {| pos_ := pos_ t; text := text t; orth_ := orth_ t; lemma_ := v |}.

(** ** The wrapped lemmatizer *)

(** The interface of the object kept in [self._internal]: one method,
    [lemmatize(pos, text)].  A call returns a list of candidates or raises,
    and leaves the object in a possibly different state. *)
Class Lemmatizer (L : Type) : Type := {
  lemmatize : L -> string -> string -> outcome (list value) * L
}.

(** What the component does to the outside, in program order. *)
Inductive event : Type :=
  | EvLemmatize (pos word : string)
  | EvSetLemma (i : nat) (v : value).

(** A lemmatizer for the examples: the object is a list of candidates and
    answers every call with it, unchanged. *)
#[global] Instance canned_lemmatizer : Lemmatizer (list value) := {
  lemmatize l _ _ := (Ok l, l)
}.

(** A second lemmatizer for the examples: the object is a table from words
    to candidates; a word that is not in the table is an error. *)
Fixpoint table_lookup (table : list (string * list value)) (word : string)
  : option (list value) :=
  match table with
  | [] => None
  | (key, cands) :: rest =>
      if String.eqb key word then Some cands else table_lookup rest word
  end.

#[global] Instance table_lemmatizer : Lemmatizer (list (string * list value)) := {
  lemmatize table _ word :=
    match table_lookup table word with
    | Some cands => (Ok cands, table)
    | None => (Raise (OtherError "KeyError"), table)
    end
}.

(** Modelled from the spec: [lemmy.load], the resource load interface, which
    is not part of [src/].  [bundled] holds the lemmatizer of every language
    code that has bundled data; any other code fails with
    [ResourceNotFoundError]. *)
Definition load_resources {L : Type} (bundled : gmap string L)
    (language_code : string) : outcome L :=
  match bundled !! language_code with
  | Some lemmatizer => Ok lemmatizer
  | None => Raise ResourceNotFoundError
  end.

Module Component.
Section component.
Context {L : Type} `{Lemmatizer L}.

(** [spacy.symbols.PRON_LEMMA] *)
Variable PRON_LEMMA : string.

(** [class LemmyPipelineComponent]: [__init__] stores its argument. *)
Record LemmyPipelineComponent : Type := __init__ {
  _internal : L
}.

(** The store a call runs in: the component, the tokens of the document
    and the events so far. *)
Record world : Type := mkWorld {
  self : LemmyPipelineComponent;
  doc : list Token;
  trace : list event
}.

(** Computations: they read and update the store, and return or raise.
    An exception does not roll the store back. *)
Definition M (A : Type) : Type := world -> outcome A * world.

Definition ret {A} (a : A) : M A := fun w => (Ok a, w).

Definition raise {A} (e : exn) : M A := fun w => (Raise e, w).

Definition bind {A B} (m : M A) (k : A -> M B) : M B :=
  fun w =>
    match m w with
    | (Ok a, w') => k a w'
    | (Raise e, w') => (Raise e, w')
    end.

Notation "x <- m ;; k" := (bind m (fun x => k))
  (at level 100, m at next level, right associativity).

(** [self._internal.lemmatize(pos, word)] *)
Definition call_lemmatize (pos word : string) : M (list value) :=
  fun w =>
    let '(r, l') := lemmatize (_internal (self w)) pos word in
    (r, {| self := __init__ l'; doc := doc w;
           trace := trace w ++ [EvLemmatize pos word] |}).

(** [lemmas[0]] *)
Definition index0 (lemmas : list value) : M value :=
  match lemmas with
  | [] => raise IndexError
  | l :: _ => ret l
  end.

(** The [for l in lemmas] loop of [_get_lemma]: [Some l] when the loop
    returns [l], [None] when it runs to its end. *)
Fixpoint for_lemmas (orth : string) (lemmas : list value) : option value :=
  match lemmas with
  | [] => None
  | l :: rest =>
      if str_eq orth l then for_lemmas orth rest   (* continue *)
      else Some l                                  (* return l *)
  end.

Definition _get_lemma (token : Token) : M value :=
  lemmas <- call_lemmatize (pos_ token) (text token) ;;
  if negb (length lemmas =? 1) then
    match for_lemmas (orth_ token) lemmas with
    | Some l => ret l
    | None => index0 lemmas
    end
  else index0 lemmas.

(** The [i]-th token of the document, as the [for token in doc] loop
    hands it out.  The loop only asks for indices below the length of the
    document. *)
Definition get_token (i : nat) : M Token :=
  fun w =>
    match doc w !! i with
    | Some t => (Ok t, w)
    | None => (Raise IndexError, w)
    end.

(** [token.lemma_ = lemma] on the [i]-th token *)
Definition set_lemma_ (i : nat) (lemma : value) : M unit :=
  fun w =>
    match doc w !! i with
    | Some t =>
        (Ok tt, {| self := self w; doc := <[i := with_lemma t lemma]> (doc w);
                   trace := trace w ++ [EvSetLemma i lemma] |})
    | None => (Raise IndexError, w)
    end.

(** The first statement of the loop body of [__call__]: the lemma chosen
    for a token. *)
Definition choose_lemma (token : Token) : M value :=
  if String.eqb (pos_ token) "PRON" then ret (VStr PRON_LEMMA)
  else _get_lemma token.

(** The body of the [for token in doc] loop of [__call__]. *)
Definition call_body (i : nat) : M unit :=
  token <- get_token i ;;
  lemma <- choose_lemma token ;;
  if negb (truthy lemma) then ret tt                  (* continue *)
  else set_lemma_ i lemma.

Fixpoint for_each (idxs : list nat) (body : nat -> M unit) : M unit :=
  match idxs with
  | [] => ret tt
  | i :: rest => _ <- body i ;; for_each rest body
  end.

(** [__call__(self, doc)]: the document is the one in the store, and it
    is that same document which is returned. *)
Definition __call__ : M unit :=
  fun w => for_each (seq 0 (length (doc w))) call_body w.

(** [load(lang="da")]: [None] stands for a call without argument.
    [load_lang] is [lemmy.load]. *)
Definition load (load_lang : string -> outcome L) (lang : option string)
  : outcome LemmyPipelineComponent :=
  let lang := default "da" lang in
  match load_lang lang with
  | Ok lemmatizer => Ok (__init__ lemmatizer)
  | Raise e => Raise e
  end.

(** The store after [self._internal.lemmatize(pos, word)] has left the
    lemmatizer as [l']. *)
Definition lemmatized (w : world) (pos word : string) (l' : L) : world :=
  {| self := __init__ l'; doc := doc w;
     trace := trace w ++ [EvLemmatize pos word] |}.

(** The store after [token.lemma_ = v] on the [i]-th token [t]. *)
Definition written (w : world) (i : nat) (t : Token) (v : value) : world :=
  {| self := self w; doc := <[i := with_lemma t v]> (doc w);
     trace := trace w ++ [EvSetLemma i v] |}.

(** The loop of [__call__] on [w] gets to the [i]-th token without an
    exception, in store [wi]. *)
Definition reaches (w : world) (i : nat) (wi : world) : Prop :=
  for_each (seq 0 i) call_body w = (Ok tt, wi).

(** On the lemmatizer objects that satisfy [I], [lemmatize] never raises
    and never returns an empty list, and it leaves an object that
    satisfies [I]. *)
Definition nonempty_lemmatizer (I : L -> Prop) : Prop :=
  forall (l : L) (pos word : string),
    I l ->
    exists (cands : list value) (l' : L),
      lemmatize l pos word = (Ok cands, l') /\ cands <> [] /\ I l'.

(** The event is a call of [lemmatize] with the pronoun tag. *)
Definition pronoun_call (e : event) : Prop :=
  exists word, e = EvLemmatize "PRON" word.

(** [lemmatize] leaves the lemmatizer object as it found it, whatever it
    returns or raises. *)
Definition readonly_lemmatizer : Prop :=
  forall (l : L) (pos word : string), (lemmatize l pos word).2 = l.

(** The arguments of the calls of [lemmatize] among the events, in order. *)
Fixpoint lemmatize_calls (evs : list event) : list (string * string) :=
  match evs with
  | [] => []
  | EvLemmatize pos word :: rest => (pos, word) :: lemmatize_calls rest
  | EvSetLemma _ _ :: rest => lemmatize_calls rest
  end.

(** Tag and text of the tokens that are not tagged "PRON", in document
    order. *)
Fixpoint non_pronouns (tokens : list Token) : list (string * string) :=
  match tokens with
  | [] => []
  | t :: rest =>
      if String.eqb (pos_ t) "PRON" then non_pronouns rest
      else (pos_ t, text t) :: non_pronouns rest
  end.

(** The lemma chosen for a token by a component whose lemmatizer keeps no
    state: the outcome of [choose_lemma], which looks at nothing else in the
    store. *)
Definition chosen (s : LemmyPipelineComponent) (t : Token) : outcome value :=
  (choose_lemma t {| self := s; doc := []; trace := [] |}).1.

(** The loop of [__call__] told as a recursion over the tokens, for a
    lemmatizer that keeps no state: the outcome, and the tokens as the loop
    leaves them.  A token gets the lemma chosen for it when that is truthy;
    an exception leaves this token and the ones after it as they are. *)
Fixpoint run_tokens (s : LemmyPipelineComponent) (tokens : list Token)
  : outcome unit * list Token :=
  match tokens with
  | [] => (Ok tt, [])
  | t :: rest =>
      match chosen s t with
      | Ok v =>
          let '(r, rest') := run_tokens s rest in
          (r, (if truthy v then with_lemma t v else t) :: rest')
      | Raise e => (Raise e, t :: rest)
      end
  end.

(** ** The tie-break loop *)

Lemma str_eq_true (a : string) (b : value) :
  str_eq a b = true <-> b = VStr a.
Proof.
  destruct b as [|s]; simpl; [split; discriminate|].
  rewrite String.eqb_eq. split; [intros ->; reflexivity|congruence].
Qed.

Lemma str_eq_false (a : string) (b : value) :
  str_eq a b = false <-> b <> VStr a.
Proof.
  rewrite <- str_eq_true. destruct (str_eq a b); split; congruence.
Qed.

Lemma for_lemmas_skips (orth : string) (pre rest : list value) :
  Forall (fun c => c = VStr orth) pre ->
  for_lemmas orth (pre ++ rest) = for_lemmas orth rest.
Proof.
  induction 1 as [|c pre Hc _ IH]; [reflexivity|].
  simpl. apply str_eq_true in Hc. rewrite Hc. exact IH.
Qed.

Lemma for_lemmas_first (orth : string) (pre post : list value) (d : value) :
  Forall (fun c => c = VStr orth) pre ->
  d <> VStr orth ->
  for_lemmas orth (pre ++ d :: post) = Some d.
Proof.
  intros Hpre Hd. rewrite for_lemmas_skips by assumption.
  simpl. apply str_eq_false in Hd. rewrite Hd. reflexivity.
Qed.

Lemma for_lemmas_all_equal (orth : string) (lemmas : list value) :
  Forall (fun c => c = VStr orth) lemmas ->
  for_lemmas orth lemmas = None.
Proof.
  intros Hall. rewrite <- (app_nil_r lemmas).
  rewrite for_lemmas_skips by assumption. reflexivity.
Qed.

(** A list with an element that differs from the word form splits at the
    first such element. *)
Lemma first_differing_split (orth : string) (lemmas : list value) :
  Exists (fun c => c <> VStr orth) lemmas ->
  exists pre d post,
    lemmas = pre ++ d :: post /\
    Forall (fun c => c = VStr orth) pre /\
    d <> VStr orth.
Proof.
  induction lemmas as [|c rest IH]; intros Hex.
  - inversion Hex.
  - destruct (decide (c = VStr orth)) as [Heq|Hne].
    + inversion Hex as [? ? Hc|? ? Hrest]; subst; [contradiction|].
      destruct (IH Hrest) as (pre & d & post & -> & Hpre & Hd).
      exists (VStr orth :: pre), d, post. repeat split; auto.
    + exists [], c, rest. repeat split; auto.
Qed.

Lemma get_lemma_unfold (token : Token) (w : world) (cands : list value) (l' : L) :
  lemmatize (_internal (self w)) (pos_ token) (text token) = (Ok cands, l') ->
  _get_lemma token w =
    (if negb (length cands =? 1) then
       match for_lemmas (orth_ token) cands with
       | Some l => ret l
       | None => index0 cands
       end
     else index0 cands) (lemmatized w (pos_ token) (text token) l').
Proof.
  intros Hl. unfold _get_lemma, bind, call_lemmatize. rewrite Hl. reflexivity.
Qed.

(** C1: when [lemmatize] returns two or more candidates and one of them is
    not the token's word form (compared as strings, case and all),
    [_get_lemma] returns the first candidate that differs: the candidates
    before it all equal the word form. *)
Theorem get_lemma_first_differing
    (token : Token) (w : world) (cands : list value) (l' : L) :
  lemmatize (_internal (self w)) (pos_ token) (text token) = (Ok cands, l') ->
  2 <= length cands ->
  Exists (fun c => c <> VStr (orth_ token)) cands ->
  exists pre d post,
    cands = pre ++ d :: post /\
    Forall (fun c => c = VStr (orth_ token)) pre /\
    d <> VStr (orth_ token) /\
    _get_lemma token w = (Ok d, lemmatized w (pos_ token) (text token) l').
Proof.
  intros Hl Hlen Hex.
  destruct (first_differing_split _ _ Hex) as (pre & d & post & Hc & Hpre & Hd).
  exists pre, d, post. repeat split; try assumption.
  rewrite (get_lemma_unfold _ _ _ _ Hl).
  destruct (Nat.eqb_spec (length cands) 1) as [H1|_]; [lia|]. simpl.
  rewrite Hc, for_lemmas_first by assumption. reflexivity.
Qed.

(** C2: when [lemmatize] returns two or more candidates and every one of
    them equals the token's word form, [_get_lemma] returns the first
    candidate; it does not raise. *)
Theorem get_lemma_all_equal
    (token : Token) (w : world) (cands : list value) (l' : L) :
  lemmatize (_internal (self w)) (pos_ token) (text token) = (Ok cands, l') ->
  2 <= length cands ->
  Forall (fun c => c = VStr (orth_ token)) cands ->
  exists first rest,
    cands = first :: rest /\
    _get_lemma token w = (Ok first, lemmatized w (pos_ token) (text token) l').
Proof.
  intros Hl Hlen Hall.
  destruct cands as [|first rest]; [simpl in Hlen; lia|].
  exists first, rest. split; [reflexivity|].
  rewrite (get_lemma_unfold _ _ _ _ Hl).
  rewrite for_lemmas_all_equal by assumption.
  destruct (negb _); reflexivity.
Qed.

(** C3: when [lemmatize] returns exactly one candidate, [_get_lemma]
    returns it, whether or not it equals the token's word form. *)
Theorem get_lemma_single
    (token : Token) (w : world) (c : value) (l' : L) :
  lemmatize (_internal (self w)) (pos_ token) (text token) = (Ok [c], l') ->
  _get_lemma token w = (Ok c, lemmatized w (pos_ token) (text token) l').
Proof.
  intros Hl. rewrite (get_lemma_unfold _ _ _ _ Hl). reflexivity.
Qed.

(** ** The loop body of [__call__] *)

Lemma get_lemma_doc (token : Token) (w : world) :
  doc (_get_lemma token w).2 = doc w.
Proof.
  unfold _get_lemma, bind, call_lemmatize.
  destruct (lemmatize _ _ _) as [[cands|e] l']; [|reflexivity].
  destruct (negb _); [destruct (for_lemmas _ _)|]; try reflexivity;
    destruct cands; reflexivity.
Qed.

Lemma choose_lemma_doc (token : Token) (w : world) :
  doc (choose_lemma token w).2 = doc w.
Proof.
  unfold choose_lemma. destruct (String.eqb _ _); [reflexivity|].
  apply get_lemma_doc.
Qed.

Lemma call_body_step (i : nat) (t : Token) (w w1 : world) (v : value) :
  doc w !! i = Some t ->
  choose_lemma t w = (Ok v, w1) ->
  call_body i w = (Ok tt, if truthy v then written w1 i t v else w1).
Proof.
  intros Ht Hc. unfold call_body, bind, get_token. rewrite Ht, Hc.
  destruct (truthy v); simpl; [|reflexivity].
  unfold set_lemma_.
  replace (doc w1) with (doc w)
    by (rewrite <- (choose_lemma_doc t w), Hc; reflexivity).
  rewrite Ht. unfold written.
  replace (doc w1) with (doc w)
    by (rewrite <- (choose_lemma_doc t w), Hc; reflexivity).
  reflexivity.
Qed.

Lemma call_body_raise (i : nat) (t : Token) (w w1 : world) (e : exn) :
  doc w !! i = Some t ->
  choose_lemma t w = (Raise e, w1) ->
  call_body i w = (Raise e, w1).
Proof.
  intros Ht Hc. unfold call_body, bind, get_token. rewrite Ht, Hc. reflexivity.
Qed.

(** A step of the loop writes to its own token only, and only to the
    lemma. *)
Lemma call_body_lookup_ne (i j : nat) (w : world) :
  i <> j -> doc (call_body i w).2 !! j = doc w !! j.
Proof.
  intros Hij. destruct (doc w !! i) as [t|] eqn:Ht.
  - destruct (choose_lemma t w) as [[v|e] w1] eqn:Hc.
    + rewrite (call_body_step _ _ _ _ _ Ht Hc).
      pose proof (choose_lemma_doc t w) as Hd. rewrite Hc in Hd. simpl in Hd.
      destruct (truthy v); simpl; [|congruence].
      rewrite list_lookup_insert_ne by assumption. congruence.
    + rewrite (call_body_raise _ _ _ _ _ Ht Hc).
      pose proof (choose_lemma_doc t w) as Hd. rewrite Hc in Hd. simpl in *.
      congruence.
  - unfold call_body, bind, get_token. rewrite Ht. reflexivity.
Qed.

Lemma call_body_length (i : nat) (w : world) :
  length (doc (call_body i w).2) = length (doc w).
Proof.
  destruct (doc w !! i) as [t|] eqn:Ht.
  - destruct (choose_lemma t w) as [[v|e] w1] eqn:Hc.
    + rewrite (call_body_step _ _ _ _ _ Ht Hc).
      pose proof (choose_lemma_doc t w) as Hd. rewrite Hc in Hd. simpl in Hd.
      destruct (truthy v); simpl; [|congruence].
      rewrite length_insert. congruence.
    + rewrite (call_body_raise _ _ _ _ _ Ht Hc).
      pose proof (choose_lemma_doc t w) as Hd. rewrite Hc in Hd. simpl in *.
      congruence.
  - unfold call_body, bind, get_token. rewrite Ht. reflexivity.
Qed.

(** ** The loop of [__call__] *)

Lemma for_each_app (a b : list nat) (body : nat -> M unit) (w : world) :
  for_each (a ++ b) body w =
    match for_each a body w with
    | (Ok _, w') => for_each b body w'
    | (Raise e, w') => (Raise e, w')
    end.
Proof.
  revert w. induction a as [|i a IH]; intros w; [reflexivity|].
  simpl. unfold bind. destruct (body i w) as [[[]|e] w']; [apply IH|reflexivity].
Qed.

Lemma for_each_lookup_notin (idxs : list nat) (j : nat) (w : world) :
  j ∉ idxs -> doc (for_each idxs call_body w).2 !! j = doc w !! j.
Proof.
  revert w. induction idxs as [|i idxs IH]; intros w Hj; [reflexivity|].
  apply not_elem_of_cons in Hj as [Hji Hj].
  simpl. unfold bind.
  pose proof (call_body_lookup_ne i j w ltac:(congruence)) as Hs.
  destruct (call_body i w) as [[[]|e] w']; simpl in Hs; [|exact Hs].
  rewrite IH by assumption. exact Hs.
Qed.

Lemma for_each_length (idxs : list nat) (w : world) :
  length (doc (for_each idxs call_body w).2) = length (doc w).
Proof.
  revert w. induction idxs as [|i idxs IH]; intros w; [reflexivity|].
  simpl. unfold bind.
  pose proof (call_body_length i w) as Hs.
  destruct (call_body i w) as [[[]|e] w']; simpl in Hs; [|exact Hs].
  rewrite IH. exact Hs.
Qed.

(** When the loop gets to the [i]-th token, that token is still as it was
    at the start, and what the loop body makes of it is what the document
    holds when [__call__] ends, normally or with an exception from a later
    token. *)
Lemma call_final_token (w wi : world) (i : nat) :
  i < length (doc w) ->
  reaches w i wi ->
  doc wi !! i = doc w !! i /\
  doc (__call__ w).2 !! i = doc (call_body i wi).2 !! i.
Proof.
  intros Hi Hr. unfold reaches in Hr. split.
  - replace wi with (for_each (seq 0 i) call_body w).2 by (rewrite Hr; reflexivity).
    apply for_each_lookup_notin. rewrite elem_of_seq. lia.
  - unfold __call__.
    replace (length (doc w)) with (i + S (length (doc w) - S i)) by lia.
    rewrite seq_app, for_each_app, Hr. simpl. unfold bind.
    destruct (call_body i wi) as [[[]|e] w2]; [|reflexivity].
    simpl. apply for_each_lookup_notin. rewrite elem_of_seq. lia.
Qed.

(** ** The events of a run *)

Lemma get_lemma_trace (token : Token) (w : world) :
  trace (_get_lemma token w).2 =
    trace w ++ [EvLemmatize (pos_ token) (text token)].
Proof.
  unfold _get_lemma, bind, call_lemmatize.
  destruct (lemmatize _ _ _) as [[cands|e] l']; [|reflexivity].
  destruct (negb _); [destruct (for_lemmas _ _)|]; try reflexivity;
    destruct cands; reflexivity.
Qed.

Lemma get_lemma_self (token : Token) (w : world) :
  self (_get_lemma token w).2 =
    __init__ (lemmatize (_internal (self w)) (pos_ token) (text token)).2.
Proof.
  unfold _get_lemma, bind, call_lemmatize.
  destruct (lemmatize _ _ _) as [[cands|e] l']; [|reflexivity].
  destruct (negb _); [destruct (for_lemmas _ _)|]; try reflexivity;
    destruct cands; reflexivity.
Qed.

Lemma choose_lemma_trace (token : Token) (w : world) :
  exists evs,
    trace (choose_lemma token w).2 = trace w ++ evs /\
    Forall (fun e => ~ pronoun_call e) evs.
Proof.
  unfold choose_lemma. destruct (String.eqb_spec (pos_ token) "PRON") as [|Hp].
  - exists []. simpl. rewrite app_nil_r. auto.
  - exists [EvLemmatize (pos_ token) (text token)].
    split; [apply get_lemma_trace|].
    constructor; [|constructor]. intros [word Hw]. congruence.
Qed.

Lemma call_body_trace (i : nat) (w : world) :
  exists evs,
    trace (call_body i w).2 = trace w ++ evs /\
    Forall (fun e => ~ pronoun_call e) evs.
Proof.
  destruct (doc w !! i) as [t|] eqn:Ht.
  - destruct (choose_lemma_trace t w) as (evs & Htr & Hevs).
    destruct (choose_lemma t w) as [[v|e] w1] eqn:Hc; simpl in Htr.
    + rewrite (call_body_step _ _ _ _ _ Ht Hc).
      destruct (truthy v); simpl; [|eauto].
      exists (evs ++ [EvSetLemma i v]). rewrite Htr, app_assoc. split; [reflexivity|].
      apply Forall_app. split; [assumption|].
      constructor; [|constructor]. intros [word Hw]. discriminate.
    + rewrite (call_body_raise _ _ _ _ _ Ht Hc). eauto.
  - exists []. unfold call_body, bind, get_token. rewrite Ht. simpl.
    rewrite app_nil_r. auto.
Qed.

Lemma for_each_trace (idxs : list nat) (w : world) :
  exists evs,
    trace (for_each idxs call_body w).2 = trace w ++ evs /\
    Forall (fun e => ~ pronoun_call e) evs.
Proof.
  revert w. induction idxs as [|i idxs IH]; intros w.
  - exists []. simpl. rewrite app_nil_r. auto.
  - simpl. unfold bind.
    destruct (call_body_trace i w) as (evs1 & Htr1 & Hevs1).
    destruct (call_body i w) as [[[]|e] w']; simpl in Htr1; [|eauto].
    destruct (IH w') as (evs2 & Htr2 & Hevs2).
    exists (evs1 ++ evs2). rewrite Htr2, Htr1, app_assoc. split; [reflexivity|].
    apply Forall_app. auto.
Qed.

(** ** The adapter, token by token *)

(** C4: when the loop of [__call__] gets to a token tagged "PRON", the
    loop body ends normally, its only effect is the assignment of
    [PRON_LEMMA] to the token's lemma (no call of [lemmatize], whatever the
    lemmatizer is), and the token holds [PRON_LEMMA] when [__call__] ends.
    No run of [__call__] calls [lemmatize] with the tag "PRON".
    [PRON_LEMMA] is spaCy's non-empty marker. *)
Theorem call_pronoun (w wi : world) (i : nat) (t : Token) :
  PRON_LEMMA <> "" ->
  doc w !! i = Some t ->
  pos_ t = "PRON" ->
  reaches w i wi ->
  call_body i wi = (Ok tt, written wi i t (VStr PRON_LEMMA)) /\
  doc (__call__ w).2 !! i = Some (with_lemma t (VStr PRON_LEMMA)) /\
  exists evs,
    trace (__call__ w).2 = trace w ++ evs /\
    Forall (fun e => ~ pronoun_call e) evs.
Proof.
  intros Hne Ht Hpos Hr.
  pose proof (lookup_lt_Some _ _ _ Ht) as Hi.
  destruct (call_final_token w wi i Hi Hr) as [Hsame Hfinal].
  assert (Hc : choose_lemma t wi = (Ok (VStr PRON_LEMMA), wi)).
  { unfold choose_lemma. rewrite Hpos. reflexivity. }
  assert (Hstep : call_body i wi = (Ok tt, written wi i t (VStr PRON_LEMMA))).
  { rewrite (call_body_step i t wi wi (VStr PRON_LEMMA)) by congruence.
    simpl. destruct (String.eqb_spec PRON_LEMMA ""); [contradiction|reflexivity]. }
  split; [exact Hstep|]. split.
  - rewrite Hfinal, Hstep. simpl. apply list_lookup_insert_eq.
    unfold reaches in Hr.
    replace wi with (for_each (seq 0 i) call_body w).2 by (rewrite Hr; reflexivity).
    rewrite for_each_length. exact Hi.
  - apply for_each_trace.
Qed.

(** C5: when the loop of [__call__] gets to a token and the lemma chosen
    for it is falsy, the loop body goes on to the next token without an
    assignment: the document is as the choice of the lemma left it, and
    the token still holds the lemma it had when [__call__] ends.  [w] is
    any store, also the one an earlier run of [__call__] has left. *)
Theorem call_falsy_lemma_kept
    (w wi w1 : world) (i : nat) (t : Token) (v : value) :
  doc w !! i = Some t ->
  reaches w i wi ->
  choose_lemma t wi = (Ok v, w1) ->
  truthy v = false ->
  call_body i wi = (Ok tt, w1) /\
  doc w1 = doc wi /\
  doc (__call__ w).2 !! i = Some t.
Proof.
  intros Ht Hr Hc Hv.
  pose proof (lookup_lt_Some _ _ _ Ht) as Hi.
  destruct (call_final_token w wi i Hi Hr) as [Hsame Hfinal].
  assert (Hd : doc w1 = doc wi).
  { rewrite <- (choose_lemma_doc t wi), Hc. reflexivity. }
  assert (Hstep : call_body i wi = (Ok tt, w1)).
  { rewrite (call_body_step i t wi w1 v) by congruence. rewrite Hv. reflexivity. }
  repeat split; try assumption.
  rewrite Hfinal, Hstep. simpl. congruence.
Qed.

Lemma truthy_false (v : value) :
  truthy v = false <-> v = VStr "" \/ v = VNone.
Proof.
  destruct v as [|s]; simpl.
  - split; auto.
  - destruct (String.eqb_spec s "") as [->|Hs]; simpl.
    + split; auto.
    + split; [discriminate|]. intros [Hv|Hv]; congruence.
Qed.

Lemma written_differs (w : world) (i : nat) (t : Token) (v : value) :
  written w i t v <> w.
Proof.
  intros Heq. apply (f_equal trace) in Heq. simpl in Heq.
  apply (f_equal length) in Heq. rewrite length_app in Heq. simpl in Heq. lia.
Qed.

(** C9: when the loop of [__call__] gets to a token and a lemma [v] has
    been chosen for it, the loop body assigns [v] to the token's lemma
    unless [v] is the empty string or [None], and in these two cases only
    it leaves the token alone; an assignment is never mistaken for leaving
    the token alone, since it shows in the events.  So every non-empty
    string, the string "0" too, is written. *)
Theorem call_writes_unless_empty
    (w wi w1 : world) (i : nat) (t : Token) (v : value) :
  doc w !! i = Some t ->
  reaches w i wi ->
  choose_lemma t wi = (Ok v, w1) ->
  call_body i wi =
    (Ok tt, if decide (v = VStr "" \/ v = VNone) then w1 else written w1 i t v) /\
  doc (__call__ w).2 !! i =
    Some (if decide (v = VStr "" \/ v = VNone) then t else with_lemma t v) /\
  written w1 i t v <> w1.
Proof.
  intros Ht Hr Hc.
  pose proof (lookup_lt_Some _ _ _ Ht) as Hi.
  destruct (call_final_token w wi i Hi Hr) as [Hsame Hfinal].
  assert (Hd : doc w1 = doc wi).
  { rewrite <- (choose_lemma_doc t wi), Hc. reflexivity. }
  assert (Hlen : length (doc wi) = length (doc w)).
  { unfold reaches in Hr.
    replace wi with (for_each (seq 0 i) call_body w).2 by (rewrite Hr; reflexivity).
    apply for_each_length. }
  rewrite Hfinal, (call_body_step i t wi w1 v) by congruence.
  pose proof (truthy_false v) as Hv.
  destruct (decide (v = VStr "" \/ v = VNone)) as [He|He].
  - apply Hv in He. rewrite He. simpl. repeat split.
    + congruence.
    + apply written_differs.
  - destruct (truthy v); [|exfalso; apply He, Hv; reflexivity].
    simpl. repeat split.
    + rewrite Hd. apply list_lookup_insert_eq. lia.
    + apply written_differs.
Qed.

(** ** Totality *)

Lemma get_lemma_total (I : L -> Prop) (token : Token) (w : world) :
  nonempty_lemmatizer I ->
  I (_internal (self w)) ->
  exists v w',
    _get_lemma token w = (Ok v, w') /\
    I (_internal (self w')) /\ doc w' = doc w.
Proof.
  intros Hne HI.
  destruct (Hne _ (pos_ token) (text token) HI) as (cands & l' & Hl & Hc & HI').
  rewrite (get_lemma_unfold _ _ _ _ Hl).
  destruct cands as [|c cands]; [contradiction|].
  destruct (negb _); [destruct (for_lemmas _ _)|]; simpl; eauto.
Qed.

Lemma call_body_total (I : L -> Prop) (i : nat) (w : world) :
  nonempty_lemmatizer I ->
  I (_internal (self w)) ->
  i < length (doc w) ->
  exists w',
    call_body i w = (Ok tt, w') /\
    I (_internal (self w')) /\ length (doc w') = length (doc w).
Proof.
  intros Hne HI Hi.
  destruct (lookup_lt_is_Some_2 _ _ Hi) as [t Ht].
  assert (Hc : exists v w1, choose_lemma t w = (Ok v, w1) /\
                 I (_internal (self w1)) /\ doc w1 = doc w).
  { unfold choose_lemma. destruct (String.eqb _ _).
    - exists (VStr PRON_LEMMA), w. auto.
    - apply get_lemma_total; assumption. }
  destruct Hc as (v & w1 & Hc & HI1 & Hd).
  rewrite (call_body_step _ _ _ _ _ Ht Hc).
  destruct (truthy v); eexists; (split; [reflexivity|]); simpl; split;
    try assumption; try congruence.
  rewrite length_insert. congruence.
Qed.

Lemma for_each_total (I : L -> Prop) (idxs : list nat) (w : world) :
  nonempty_lemmatizer I ->
  I (_internal (self w)) ->
  Forall (fun i => i < length (doc w)) idxs ->
  exists w',
    for_each idxs call_body w = (Ok tt, w') /\ I (_internal (self w')).
Proof.
  intros Hne. revert w. induction idxs as [|i idxs IH]; intros w HI Hidx.
  - exists w. auto.
  - inversion Hidx as [|? ? Hi Hrest]; subst.
    destruct (call_body_total I i w Hne HI Hi) as (w1 & Hstep & HI1 & Hlen).
    simpl. unfold bind. rewrite Hstep.
    apply IH; [assumption|]. rewrite Hlen. assumption.
Qed.

(** C6: with a lemmatizer whose [lemmatize] never raises and always
    returns at least one candidate, [_get_lemma] returns a lemma for every
    token, and [__call__] ends normally on every document. *)
Theorem call_total (I : L -> Prop) (w : world) :
  nonempty_lemmatizer I ->
  I (_internal (self w)) ->
  (forall token : Token, exists v w', _get_lemma token w = (Ok v, w')) /\
  (exists w', __call__ w = (Ok tt, w') /\ I (_internal (self w'))).
Proof.
  intros Hne HI. split.
  - intros token.
    destruct (get_lemma_total I token w Hne HI) as (v & w' & Hg & _). eauto.
  - apply for_each_total; try assumption.
    apply Forall_forall. intros i Hi. apply elem_of_seq in Hi. lia.
Qed.

(** ** Determinism *)

(** What [_get_lemma] returns depends on the token's tag and surface text
    and on the lemmatizer only. *)
Lemma get_lemma_result (t1 t2 : Token) (w1 w2 : world) :
  self w1 = self w2 ->
  pos_ t1 = pos_ t2 ->
  text t1 = text t2 ->
  orth_ t1 = orth_ t2 ->
  (_get_lemma t1 w1).1 = (_get_lemma t2 w2).1.
Proof.
  intros Hself Hpos Htext Horth. unfold _get_lemma, bind, call_lemmatize.
  rewrite Hpos, Htext, Horth, Hself.
  destruct (lemmatize _ _ _) as [[cands|e] l']; [|reflexivity].
  destruct (negb _); [destruct (for_lemmas _ _)|]; try reflexivity;
    destruct cands; reflexivity.
Qed.

(** C7: two runs of [_get_lemma] on tokens with the same tag and the same
    surface text, with the lemmatizer in the same state, return the same
    lemma (or raise the same exception); the call writes to no token, and
    when [lemmatize] leaves the lemmatizer as it was, so does
    [_get_lemma], and a second run after the first returns the same
    again. *)
Theorem get_lemma_deterministic (t1 t2 : Token) (w1 w2 : world) :
  self w1 = self w2 ->
  pos_ t1 = pos_ t2 ->
  text t1 = text t2 ->
  orth_ t1 = orth_ t2 ->
  (lemmatize (_internal (self w1)) (pos_ t1) (text t1)).2 = _internal (self w1) ->
  (_get_lemma t1 w1).1 = (_get_lemma t2 w2).1 /\
  doc (_get_lemma t1 w1).2 = doc w1 /\
  self (_get_lemma t1 w1).2 = self w1 /\
  (_get_lemma t2 (_get_lemma t1 w1).2).1 = (_get_lemma t1 w1).1.
Proof.
  intros Hself Hpos Htext Horth Hro.
  assert (Hkeep : self (_get_lemma t1 w1).2 = self w1).
  { rewrite get_lemma_self, Hro. destruct (self w1). reflexivity. }
  repeat split.
  - apply get_lemma_result; assumption.
  - apply get_lemma_doc.
  - exact Hkeep.
  - symmetry. apply get_lemma_result; congruence.
Qed.

(** ** Loading *)

(** C8: with [lemmy.load] as the spec has it, [load] of a language code
    without bundled data fails with [ResourceNotFoundError]; [load] fails
    in no other case and with no other error, and whatever [lemmy.load]
    raises is what [load] raises. *)
Theorem load_unbundled (bundled : gmap string L) (lang : string) :
  bundled !! lang = None ->
  load (load_resources bundled) (Some lang) = Raise ResourceNotFoundError /\
  (forall code : option string,
     load (load_resources bundled) code =
       match bundled !! default "da" code with
       | Some lemmatizer => Ok (__init__ lemmatizer)
       | None => Raise ResourceNotFoundError
       end) /\
  (forall (load_lang : string -> outcome L) (code : option string),
     load load_lang code =
       match load_lang (default "da" code) with
       | Ok lemmatizer => Ok (__init__ lemmatizer)
       | Raise e => Raise e
       end).
Proof.
  intros Hnone. unfold load, load_resources. simpl. rewrite Hnone.
  repeat split.
  intros code. destruct (bundled !! default "da" code); reflexivity.
Qed.

(** C10: [load()] without argument asks [lemmy.load] for the language code
    "da", as [load("da")] does, and returns a component whose [_internal]
    is the lemmatizer it got. *)
Theorem load_default (load_lang : string -> outcome L) (lemmatizer : L) :
  load_lang "da" = Ok lemmatizer ->
  load load_lang None = Ok (__init__ lemmatizer) /\
  load load_lang None = load load_lang (Some "da").
Proof.
  intros Hda. unfold load. simpl. rewrite Hda. split; reflexivity.
Qed.

(** ** More on the tie-break *)

Lemma for_lemmas_some (orth : string) (lemmas : list value) (v : value) :
  for_lemmas orth lemmas = Some v -> v ∈ lemmas /\ v <> VStr orth.
Proof.
  induction lemmas as [|c rest IH]; simpl; [discriminate|].
  destruct (str_eq orth c) eqn:Hc.
  - intros Hv. destruct (IH Hv) as [Hin Hne]. split; [|exact Hne].
    apply elem_of_cons. right. exact Hin.
  - intros [= <-]. split; [apply elem_of_cons; left; reflexivity|].
    apply str_eq_false. exact Hc.
Qed.

Lemma for_lemmas_none (orth : string) (lemmas : list value) :
  for_lemmas orth lemmas = None -> Forall (fun c => c = VStr orth) lemmas.
Proof.
  induction lemmas as [|c rest IH]; simpl; [constructor|].
  destruct (str_eq orth c) eqn:Hc; [|discriminate].
  intros Hn. constructor; [apply str_eq_true; exact Hc|apply IH; exact Hn].
Qed.

(** X1: the lemma [_get_lemma] returns is one of the candidates [lemmatize]
    gave, and it is the word form itself only when there is no other choice:
    the list has one candidate or all candidates equal the word form. *)
Theorem get_lemma_from_candidates
    (token : Token) (w w' : world) (cands : list value) (l' : L) (v : value) :
  lemmatize (_internal (self w)) (pos_ token) (text token) = (Ok cands, l') ->
  _get_lemma token w = (Ok v, w') ->
  v ∈ cands /\
  (v <> VStr (orth_ token) \/
   length cands = 1 \/
   Forall (fun c => c = VStr (orth_ token)) cands).
Proof.
  intros Hl. rewrite (get_lemma_unfold _ _ _ _ Hl).
  destruct (Nat.eqb_spec (length cands) 1) as [H1|H1]; simpl.
  - destruct cands as [|c rest]; [discriminate|].
    intros [= <- _]. split; [apply elem_of_cons; left; reflexivity|auto].
  - destruct (for_lemmas (orth_ token) cands) as [d|] eqn:Hf.
    + intros [= <- _]. destruct (for_lemmas_some _ _ _ Hf). auto.
    + apply for_lemmas_none in Hf.
      destruct cands as [|c rest]; [discriminate|].
      intros [= <- _]. split; [apply elem_of_cons; left; reflexivity|auto].
Qed.

(** ** What a run leaves of the document *)

Lemma with_lemma_same (t : Token) : with_lemma t (lemma_ t) = t.
Proof. destruct t. reflexivity. Qed.

Lemma call_body_token (j i : nat) (w : world) (t : Token) :
  doc w !! i = Some t ->
  exists v,
    doc (call_body j w).2 !! i = Some (with_lemma t v) /\
    (v = lemma_ t \/ truthy v = true).
Proof.
  intros Ht. destruct (decide (j = i)) as [->|Hji].
  - destruct (choose_lemma t w) as [[v|e] w1] eqn:Hc.
    + pose proof (choose_lemma_doc t w) as Hd. rewrite Hc in Hd. simpl in Hd.
      rewrite (call_body_step _ _ _ _ _ Ht Hc).
      destruct (truthy v) eqn:Hv; simpl.
      * exists v. split; [|auto]. rewrite Hd.
        apply list_lookup_insert_eq. eapply lookup_lt_Some. exact Ht.
      * exists (lemma_ t). rewrite with_lemma_same, Hd. auto.
    + pose proof (choose_lemma_doc t w) as Hd. rewrite Hc in Hd. simpl in Hd.
      rewrite (call_body_raise _ _ _ _ _ Ht Hc). simpl.
      exists (lemma_ t). rewrite with_lemma_same, Hd. auto.
  - exists (lemma_ t). rewrite with_lemma_same, call_body_lookup_ne by assumption.
    auto.
Qed.

Lemma for_each_token (idxs : list nat) (i : nat) (w : world) (t : Token) :
  doc w !! i = Some t ->
  exists v,
    doc (for_each idxs call_body w).2 !! i = Some (with_lemma t v) /\
    (v = lemma_ t \/ truthy v = true).
Proof.
  revert w t. induction idxs as [|j idxs IH]; intros w t Ht.
  - exists (lemma_ t). simpl. rewrite with_lemma_same. auto.
  - destruct (call_body_token j i w t Ht) as (v1 & Ht1 & Hv1).
    simpl. unfold bind.
    destruct (call_body j w) as [[[]|e] w1]; simpl in Ht1; [|eauto].
    destruct (IH w1 _ Ht1) as (v2 & Ht2 & Hv2).
    exists v2. split; [exact Ht2|].
    destruct Hv2 as [->|Hv2]; [exact Hv1|auto].
Qed.

(** X2: whether [__call__] ends normally or with an exception, the
    document keeps its length and every token its tag and text; a token's
    lemma is the one it came with or a truthy value, never a falsy one that
    [__call__] wrote. *)
Theorem call_only_sets_lemmas (w : world) (i : nat) (t : Token) :
  doc w !! i = Some t ->
  length (doc (__call__ w).2) = length (doc w) /\
  exists v,
    doc (__call__ w).2 !! i = Some (with_lemma t v) /\
    (v = lemma_ t \/ truthy v = true).
Proof.
  intros Ht. split; [apply for_each_length|].
  apply for_each_token. exact Ht.
Qed.

(** ** Exceptions *)

Lemma reaches_doc (w wi : world) (i j : nat) :
  reaches w i wi -> i <= j -> doc wi !! j = doc w !! j.
Proof.
  intros Hr Hij. unfold reaches in Hr.
  replace wi with (for_each (seq 0 i) call_body w).2 by (rewrite Hr; reflexivity).
  apply for_each_lookup_notin. rewrite elem_of_seq. lia.
Qed.

Lemma reaches_drop (w wi : world) (i : nat) :
  reaches w i wi -> drop i (doc wi) = drop i (doc w).
Proof.
  intros Hr. apply list_eq. intros k. rewrite !lookup_drop.
  apply (reaches_doc _ _ _ _ Hr). lia.
Qed.

(** An exception in the loop body is the outcome of [__call__]: the loop
    neither catches it nor goes on. *)
Lemma call_raise_at (w wi w' : world) (i : nat) (e : exn) :
  i < length (doc w) ->
  reaches w i wi ->
  call_body i wi = (Raise e, w') ->
  __call__ w = (Raise e, w').
Proof.
  intros Hi Hr Hb. unfold reaches in Hr. unfold __call__.
  replace (length (doc w)) with (i + S (length (doc w) - S i)) by lia.
  rewrite seq_app, for_each_app, Hr. simpl. unfold bind. rewrite Hb. reflexivity.
Qed.

Lemma get_lemma_raise_inv (token : Token) (w w' : world) (e : exn) :
  _get_lemma token w = (Raise e, w') ->
  exists l',
    w' = lemmatized w (pos_ token) (text token) l' /\
    (lemmatize (_internal (self w)) (pos_ token) (text token) = (Raise e, l') \/
     (e = IndexError /\
      lemmatize (_internal (self w)) (pos_ token) (text token) = (Ok [], l'))).
Proof.
  destruct (lemmatize (_internal (self w)) (pos_ token) (text token))
    as [[cands|e0] l'] eqn:Hl.
  - rewrite (get_lemma_unfold _ _ _ _ Hl).
    destruct cands as [|c rest].
    + simpl. intros [= <- <-]. eauto.
    + destruct (negb _); [destruct (for_lemmas _ _)|]; discriminate.
  - unfold _get_lemma, bind, call_lemmatize. rewrite Hl.
    intros [= <- <-]. eauto.
Qed.

Lemma call_body_raise_inv (i : nat) (w w' : world) (e : exn) :
  i < length (doc w) ->
  call_body i w = (Raise e, w') ->
  exists t l',
    doc w !! i = Some t /\
    pos_ t <> "PRON" /\
    w' = lemmatized w (pos_ t) (text t) l' /\
    (lemmatize (_internal (self w)) (pos_ t) (text t) = (Raise e, l') \/
     (e = IndexError /\
      lemmatize (_internal (self w)) (pos_ t) (text t) = (Ok [], l'))).
Proof.
  intros Hi Hb. destruct (lookup_lt_is_Some_2 _ _ Hi) as [t Ht].
  destruct (choose_lemma t w) as [[v|e0] w1] eqn:Hc.
  - rewrite (call_body_step _ _ _ _ _ Ht Hc) in Hb. discriminate.
  - rewrite (call_body_raise _ _ _ _ _ Ht Hc) in Hb.
    injection Hb as <- <-. unfold choose_lemma in Hc.
    destruct (String.eqb_spec (pos_ t) "PRON") as [|Hp]; [discriminate|].
    destruct (get_lemma_raise_inv _ _ _ _ Hc) as (l' & Hw & Hl).
    exists t, l'. auto.
Qed.

(** X3: when [lemmatize] raises for a token the loop gets to, [__call__]
    raises that same exception at once: the store is as the call of
    [lemmatize] left it, the tokens from this one on are as they were at the
    start, and the lemmas written before stay written. *)
Theorem call_lemmatize_raises
    (w wi : world) (i : nat) (t : Token) (e : exn) (l' : L) :
  doc w !! i = Some t ->
  pos_ t <> "PRON" ->
  reaches w i wi ->
  lemmatize (_internal (self wi)) (pos_ t) (text t) = (Raise e, l') ->
  __call__ w = (Raise e, lemmatized wi (pos_ t) (text t) l') /\
  drop i (doc (__call__ w).2) = drop i (doc w) /\
  take i (doc (__call__ w).2) = take i (doc wi).
Proof.
  intros Ht Hp Hr Hl.
  pose proof (lookup_lt_Some _ _ _ Ht) as Hi.
  assert (Hti : doc wi !! i = Some t).
  { rewrite (reaches_doc _ _ _ _ Hr) by lia. exact Ht. }
  assert (Hc : choose_lemma t wi = (Raise e, lemmatized wi (pos_ t) (text t) l')).
  { unfold choose_lemma. apply String.eqb_neq in Hp. rewrite Hp.
    unfold _get_lemma, bind, call_lemmatize. rewrite Hl. reflexivity. }
  rewrite (call_raise_at w wi _ i e Hi Hr (call_body_raise _ _ _ _ _ Hti Hc)).
  simpl. repeat split. apply (reaches_drop _ _ _ Hr).
Qed.

(** X4: when [lemmatize] returns an empty list for a token the loop gets
    to, [lemmas[0]] fails and [__call__] raises [IndexError]; the tokens
    from this one on are as they were at the start. *)
Theorem call_no_candidates
    (w wi : world) (i : nat) (t : Token) (l' : L) :
  doc w !! i = Some t ->
  pos_ t <> "PRON" ->
  reaches w i wi ->
  lemmatize (_internal (self wi)) (pos_ t) (text t) = (Ok [], l') ->
  __call__ w = (Raise IndexError, lemmatized wi (pos_ t) (text t) l') /\
  drop i (doc (__call__ w).2) = drop i (doc w).
Proof.
  intros Ht Hp Hr Hl.
  pose proof (lookup_lt_Some _ _ _ Ht) as Hi.
  assert (Hti : doc wi !! i = Some t).
  { rewrite (reaches_doc _ _ _ _ Hr) by lia. exact Ht. }
  assert (Hc : choose_lemma t wi =
                 (Raise IndexError, lemmatized wi (pos_ t) (text t) l')).
  { unfold choose_lemma. apply String.eqb_neq in Hp. rewrite Hp.
    rewrite (get_lemma_unfold _ _ _ _ Hl). reflexivity. }
  rewrite (call_raise_at w wi _ i _ Hi Hr (call_body_raise _ _ _ _ _ Hti Hc)).
  simpl. split; [reflexivity|]. apply (reaches_drop _ _ _ Hr).
Qed.

Lemma for_each_raise_inv (n : nat) (w w' : world) (e : exn) :
  n <= length (doc w) ->
  for_each (seq 0 n) call_body w = (Raise e, w') ->
  exists i wi, i < n /\ reaches w i wi /\ call_body i wi = (Raise e, w').
Proof.
  induction n as [|n IH]; intros Hn; [discriminate|].
  rewrite seq_S, for_each_app. simpl.
  destruct (for_each (seq 0 n) call_body w) as [[[]|e0] wn] eqn:Hpre.
  - unfold bind. destruct (call_body n wn) as [[[]|e1] w1] eqn:Hb; [discriminate|].
    intros [= <- <-]. exists n, wn. repeat split; [lia|exact Hpre|exact Hb].
  - intros [= <- <-].
    destruct (IH ltac:(lia) eq_refl) as (i & wi & Hi & Hr & Hb).
    exists i, wi. repeat split; [lia|exact Hr|exact Hb].
Qed.

(** X5: [__call__] raises in two cases only: for a token that is not a
    pronoun, [lemmatize] raised, and this is the exception, or it returned
    an empty list, and the exception is [IndexError].  The store is then as
    that call of [lemmatize] left it. *)
Theorem call_raises_only (w w' : world) (e : exn) :
  __call__ w = (Raise e, w') ->
  exists i wi t l',
    reaches w i wi /\
    doc w !! i = Some t /\
    pos_ t <> "PRON" /\
    w' = lemmatized wi (pos_ t) (text t) l' /\
    (lemmatize (_internal (self wi)) (pos_ t) (text t) = (Raise e, l') \/
     (e = IndexError /\
      lemmatize (_internal (self wi)) (pos_ t) (text t) = (Ok [], l'))).
Proof.
  intros Hc. unfold __call__ in Hc.
  destruct (for_each_raise_inv _ _ _ _ (le_n _) Hc) as (i & wi & Hi & Hr & Hb).
  assert (Hlen : length (doc wi) = length (doc w)).
  { unfold reaches in Hr.
    replace wi with (for_each (seq 0 i) call_body w).2 by (rewrite Hr; reflexivity).
    apply for_each_length. }
  destruct (call_body_raise_inv i wi w' e ltac:(lia) Hb)
    as (t & l' & Ht & Hp & Hw & Hl).
  exists i, wi, t, l'. repeat split; try assumption.
  rewrite <- (reaches_doc _ _ _ _ Hr) by lia. exact Ht.
Qed.

(** ** The calls of [lemmatize] in a run *)

Lemma lemmatize_calls_app (a b : list event) :
  lemmatize_calls (a ++ b) = lemmatize_calls a ++ lemmatize_calls b.
Proof.
  induction a as [|[pos word|i v] a IH]; simpl; [reflexivity| |exact IH].
  rewrite IH. reflexivity.
Qed.

Lemma non_pronouns_cons (t : Token) (rest : list Token) :
  non_pronouns (t :: rest) = non_pronouns [t] ++ non_pronouns rest.
Proof. simpl. destruct (String.eqb _ _); reflexivity. Qed.

Lemma choose_lemma_calls (t : Token) (w : world) :
  exists evs,
    trace (choose_lemma t w).2 = trace w ++ evs /\
    lemmatize_calls evs = non_pronouns [t].
Proof.
  unfold choose_lemma. simpl. destruct (String.eqb (pos_ t) "PRON").
  - exists []. simpl. rewrite app_nil_r. auto.
  - exists [EvLemmatize (pos_ t) (text t)]. split; [apply get_lemma_trace|].
    reflexivity.
Qed.

Lemma call_body_calls (i : nat) (w : world) (t : Token) :
  doc w !! i = Some t ->
  exists evs,
    trace (call_body i w).2 = trace w ++ evs /\
    lemmatize_calls evs = non_pronouns [t].
Proof.
  intros Ht. destruct (choose_lemma_calls t w) as (evs & Htr & Hcalls).
  destruct (choose_lemma t w) as [[v|e] w1] eqn:Hc; simpl in Htr.
  - rewrite (call_body_step _ _ _ _ _ Ht Hc).
    destruct (truthy v); simpl; [|eauto].
    exists (evs ++ [EvSetLemma i v]). rewrite Htr, app_assoc.
    split; [reflexivity|]. rewrite lemmatize_calls_app, Hcalls. simpl.
    apply app_nil_r.
  - rewrite (call_body_raise _ _ _ _ _ Ht Hc). eauto.
Qed.

Lemma call_body_drop (i : nat) (w : world) :
  drop (S i) (doc (call_body i w).2) = drop (S i) (doc w).
Proof.
  apply list_eq. intros k. rewrite !lookup_drop.
  apply call_body_lookup_ne. lia.
Qed.

Lemma for_each_calls (n k : nat) (w : world) :
  k + n <= length (doc w) ->
  exists evs rest,
    trace (for_each (seq k n) call_body w).2 = trace w ++ evs /\
    non_pronouns (take n (drop k (doc w))) = lemmatize_calls evs ++ rest /\
    match (for_each (seq k n) call_body w).1 with
    | Ok _ => rest = []
    | Raise _ => True
    end.
Proof.
  revert k w. induction n as [|n IH]; intros k w Hk.
  - exists [], []. simpl. rewrite app_nil_r. auto.
  - destruct (lookup_lt_is_Some_2 (doc w) k ltac:(lia)) as [t Ht].
    rewrite (drop_S _ _ _ Ht). cbn [take seq for_each]. unfold bind.
    destruct (call_body_calls k w t Ht) as (evs1 & Htr1 & Hc1).
    pose proof (call_body_length k w) as Hlen.
    pose proof (call_body_drop k w) as Hdrop.
    rewrite non_pronouns_cons.
    destruct (call_body k w) as [[[]|e] w1]; simpl in Htr1, Hlen, Hdrop.
    + destruct (IH (S k) w1 ltac:(lia)) as (evs2 & rest & Htr2 & Hc2 & Hout).
      exists (evs1 ++ evs2), rest. rewrite Htr2, Htr1, app_assoc.
      split; [reflexivity|]. split; [|exact Hout].
      rewrite lemmatize_calls_app, Hc1, <- app_assoc, <- Hc2, Hdrop. reflexivity.
    + exists evs1, (non_pronouns (take n (drop (S k) (doc w)))).
      simpl. rewrite Hc1. auto.
Qed.

(** X6: in a run of [__call__], [lemmatize] is called with the tag and text
    of the tokens that are not pronouns, once each and in document order;
    a run that ends normally has made all these calls, a run that raises
    has made the first of them, up to the one that failed. *)
Theorem call_lemmatizes_non_pronouns (w : world) :
  exists evs rest,
    trace (__call__ w).2 = trace w ++ evs /\
    non_pronouns (doc w) = lemmatize_calls evs ++ rest /\
    match (__call__ w).1 with
    | Ok _ => rest = []
    | Raise _ => True
    end.
Proof.
  destruct (for_each_calls (length (doc w)) 0 w ltac:(lia))
    as (evs & rest & Htr & Hc & Hout).
  exists evs, rest. rewrite drop_0, firstn_all in Hc. auto.
Qed.

(** ** A lemmatizer that keeps no state *)

Lemma choose_lemma_result (t1 t2 : Token) (w1 w2 : world) :
  self w1 = self w2 ->
  pos_ t1 = pos_ t2 ->
  text t1 = text t2 ->
  orth_ t1 = orth_ t2 ->
  (choose_lemma t1 w1).1 = (choose_lemma t2 w2).1.
Proof.
  intros Hself Hpos Htext Horth. unfold choose_lemma. rewrite Hpos.
  destruct (String.eqb _ _); [reflexivity|].
  apply get_lemma_result; assumption.
Qed.

Lemma choose_lemma_chosen (t : Token) (w : world) :
  (choose_lemma t w).1 = chosen (self w) t.
Proof. apply choose_lemma_result; reflexivity. Qed.

Lemma chosen_with_lemma (s : LemmyPipelineComponent) (t : Token) (v : value) :
  chosen s (with_lemma t v) = chosen s t.
Proof. apply choose_lemma_result; reflexivity. Qed.

Lemma choose_lemma_self (t : Token) (w : world) :
  readonly_lemmatizer -> self (choose_lemma t w).2 = self w.
Proof.
  intros Hro. unfold choose_lemma. destruct (String.eqb _ _); [reflexivity|].
  rewrite get_lemma_self, Hro. destruct (self w). reflexivity.
Qed.

Lemma for_each_run_tokens
    (ts pre : list Token) (w : world) :
  readonly_lemmatizer ->
  doc w = pre ++ ts ->
  (for_each (seq (length pre) (length ts)) call_body w).1 =
    (run_tokens (self w) ts).1 /\
  doc (for_each (seq (length pre) (length ts)) call_body w).2 =
    pre ++ (run_tokens (self w) ts).2 /\
  self (for_each (seq (length pre) (length ts)) call_body w).2 = self w.
Proof.
  intros Hro. revert pre w. induction ts as [|t rest IH]; intros pre w Hdoc.
  - simpl. rewrite Hdoc. auto.
  - assert (Ht : doc w !! length pre = Some t).
    { rewrite Hdoc. apply list_lookup_middle. reflexivity. }
    pose proof (choose_lemma_chosen t w) as Hch.
    pose proof (choose_lemma_doc t w) as Hd.
    pose proof (choose_lemma_self t w Hro) as Hs.
    cbn [length seq for_each run_tokens]. unfold bind.
    destruct (choose_lemma t w) as [[v|e] w1] eqn:Hc; simpl in Hch, Hd, Hs;
      rewrite <- Hch.
    + rewrite (call_body_step _ _ _ _ _ Ht Hc).
      set (t' := if truthy v then with_lemma t v else t).
      set (w1' := if truthy v then written w1 (length pre) t v else w1).
      assert (Hs' : self w1' = self w).
      { unfold w1'. destruct (truthy v); exact Hs. }
      assert (Hd' : doc w1' = (pre ++ [t']) ++ rest).
      { unfold w1', t'. rewrite <- app_assoc. simpl.
        destruct (truthy v); simpl; rewrite Hd, Hdoc; [|reflexivity].
        rewrite insert_app_r_alt by lia. rewrite Nat.sub_diag. reflexivity. }
      destruct (IH (pre ++ [t']) w1' Hd') as (Hr1 & Hr2 & Hr3).
      rewrite length_app, Nat.add_comm in Hr1, Hr2, Hr3. simpl in Hr1, Hr2, Hr3.
      rewrite Hs' in Hr1, Hr2, Hr3.
      destruct (run_tokens (self w) rest) as [r rest'] eqn:Hrun.
      simpl in *. rewrite Hr1, Hr2, Hr3, <- app_assoc. auto.
    + rewrite (call_body_raise _ _ _ _ _ Ht Hc). simpl.
      rewrite Hd, Hdoc. auto.
Qed.

(** X7: with a lemmatizer that keeps no state, [__call__] is a map over the
    tokens from left to right: its outcome and the document it leaves are
    those of [run_tokens], where a token's new lemma depends on this token
    and the lemmatizer alone; the component is unchanged. *)
Theorem call_run_tokens (w : world) :
  readonly_lemmatizer ->
  (__call__ w).1 = (run_tokens (self w) (doc w)).1 /\
  doc (__call__ w).2 = (run_tokens (self w) (doc w)).2 /\
  self (__call__ w).2 = self w.
Proof.
  intros Hro. exact (for_each_run_tokens (doc w) [] w Hro eq_refl).
Qed.

Lemma run_tokens_again (s : LemmyPipelineComponent) (ts : list Token) :
  run_tokens s (run_tokens s ts).2 = run_tokens s ts.
Proof.
  induction ts as [|t rest IH]; [reflexivity|].
  simpl. destruct (chosen s t) as [v|e] eqn:Hc.
  - destruct (run_tokens s rest) as [r rest'] eqn:Hrun. simpl in *.
    assert (Hc' : chosen s (if truthy v then with_lemma t v else t) = Ok v).
    { destruct (truthy v); [rewrite chosen_with_lemma|]; exact Hc. }
    rewrite Hc', IH.
    destruct (truthy v); reflexivity.
  - simpl. rewrite Hc. reflexivity.
Qed.

(** X8: with a lemmatizer that keeps no state, a second run of [__call__]
    on the document a first run has left changes no token and has the
    outcome of the first: the same normal end or the same exception. *)
Theorem call_twice (w : world) :
  readonly_lemmatizer ->
  doc (__call__ (__call__ w).2).2 = doc (__call__ w).2 /\
  (__call__ (__call__ w).2).1 = (__call__ w).1.
Proof.
  intros Hro.
  destruct (call_run_tokens w Hro) as (Hr1 & Hd1 & Hs1).
  destruct (call_run_tokens (__call__ w).2 Hro) as (Hr2 & Hd2 & _).
  rewrite Hr2, Hd2, Hs1, Hd1, Hr1, run_tokens_again. auto.
Qed.

End component.

(** ** The theorems at concrete inputs

    The lemmatizer is the canned one, spaCy's [PRON_LEMMA] is "-PRON-". *)

Local Abbreviation sheep := (mkToken "NOUN" "sheep" "sheep" (VStr "")).
Local Abbreviation running := (mkToken "VERB" "running" "running" (VStr "")).
Local Abbreviation him := (mkToken "PRON" "him" "him" (VStr "")).
Local Abbreviation geese := (mkToken "NOUN" "geese" "geese" (VStr "goose")).
Local Abbreviation zero := (mkToken "NUM" "nul" "nul" (VStr "")).

(** The spec's scenarios, run on the code. *)
Example call_running_him :
  __call__ "-PRON-" (mkWorld (__init__ [VStr "run"]) [running; him] []) =
    (Ok tt,
     mkWorld (__init__ [VStr "run"])
       [with_lemma running (VStr "run"); with_lemma him (VStr "-PRON-")]
       [EvLemmatize "VERB" "running"; EvSetLemma 0 (VStr "run");
        EvSetLemma 1 (VStr "-PRON-")]).
Proof. reflexivity. Qed.

Example get_lemma_sheep_sheep :
  (_get_lemma sheep (mkWorld (__init__ [VStr "sheep"; VStr "sheep"]) [sheep] [])).1 =
    Ok (VStr "sheep").
Proof. reflexivity. Qed.

Example get_lemma_skips_word_form :
  (_get_lemma sheep
     (mkWorld (__init__ [VStr "sheep"; VStr "sheep"; VStr "Sheep"; VStr "ewe"])
        [sheep] [])).1 = Ok (VStr "Sheep").
Proof. reflexivity. Qed.

(** Without a candidate, [lemmas[0]] raises: the component relies on the
    lemmatizer for a non-empty answer. *)
Example get_lemma_no_candidate :
  (_get_lemma sheep (mkWorld (__init__ ([] : list value)) [sheep] [])).1 = Raise IndexError.
Proof. reflexivity. Qed.

(** An exception ends the loop and leaves the later tokens as they were. *)
Example call_no_candidate :
  __call__ "-PRON-" (mkWorld (__init__ ([] : list value)) [sheep; him] []) =
    (Raise IndexError,
     mkWorld (__init__ ([] : list value)) [sheep; him] [EvLemmatize "NOUN" "sheep"]).
Proof. reflexivity. Qed.

(** Three candidates, the first is the word form itself, the second differs
    from it in case only. *)
Lemma get_lemma_first_differing_witness :
  exists pre d post,
    [VStr "sheep"; VStr "Sheep"; VStr "sheeps"] = pre ++ d :: post /\
    Forall (fun c => c = VStr "sheep") pre /\
    d <> VStr "sheep" /\
    _get_lemma sheep
      (mkWorld (__init__ [VStr "sheep"; VStr "Sheep"; VStr "sheeps"]) [sheep] []) =
      (Ok d,
       lemmatized
         (mkWorld (__init__ [VStr "sheep"; VStr "Sheep"; VStr "sheeps"]) [sheep] [])
         "NOUN" "sheep" [VStr "sheep"; VStr "Sheep"; VStr "sheeps"]).
Proof.
  apply (get_lemma_first_differing sheep
           (mkWorld (__init__ [VStr "sheep"; VStr "Sheep"; VStr "sheeps"]) [sheep] [])
           [VStr "sheep"; VStr "Sheep"; VStr "sheeps"]
           [VStr "sheep"; VStr "Sheep"; VStr "sheeps"]).
  - reflexivity.
  - simpl. lia.
  - apply Exists_cons_tl, Exists_cons_hd. discriminate.
Defined.

(** The spec's scenario: sheep -> [sheep, sheep]. *)
Lemma get_lemma_all_equal_witness :
  exists first rest,
    [VStr "sheep"; VStr "sheep"] = first :: rest /\
    _get_lemma sheep (mkWorld (__init__ [VStr "sheep"; VStr "sheep"]) [sheep] []) =
      (Ok first,
       lemmatized (mkWorld (__init__ [VStr "sheep"; VStr "sheep"]) [sheep] [])
         "NOUN" "sheep" [VStr "sheep"; VStr "sheep"]).
Proof.
  apply (get_lemma_all_equal sheep
           (mkWorld (__init__ [VStr "sheep"; VStr "sheep"]) [sheep] [])
           [VStr "sheep"; VStr "sheep"] [VStr "sheep"; VStr "sheep"]).
  - reflexivity.
  - simpl. lia.
  - repeat constructor.
Defined.

Lemma get_lemma_single_witness :
  _get_lemma sheep (mkWorld (__init__ [VStr "sheep"]) [sheep] []) =
    (Ok (VStr "sheep"),
     lemmatized (mkWorld (__init__ [VStr "sheep"]) [sheep] [])
       "NOUN" "sheep" [VStr "sheep"]).
Proof.
  apply (get_lemma_single sheep (mkWorld (__init__ [VStr "sheep"]) [sheep] [])
           (VStr "sheep") [VStr "sheep"]).
  reflexivity.
Defined.

(** A verb, then a pronoun: the loop gets to the pronoun after one call of
    [lemmatize] and one assignment. *)
Lemma call_pronoun_witness :
  call_body "-PRON-" 1
    (mkWorld (__init__ [VStr "run"]) [with_lemma running (VStr "run"); him]
       [EvLemmatize "VERB" "running"; EvSetLemma 0 (VStr "run")]) =
    (Ok tt,
     written
       (mkWorld (__init__ [VStr "run"]) [with_lemma running (VStr "run"); him]
          [EvLemmatize "VERB" "running"; EvSetLemma 0 (VStr "run")])
       1 him (VStr "-PRON-")) /\
  doc (__call__ "-PRON-" (mkWorld (__init__ [VStr "run"]) [running; him] [])).2 !! 1 =
    Some (with_lemma him (VStr "-PRON-")) /\
  exists evs,
    trace (__call__ "-PRON-" (mkWorld (__init__ [VStr "run"]) [running; him] [])).2 =
      [] ++ evs /\
    Forall (fun e => ~ pronoun_call e) evs.
Proof.
  apply (call_pronoun "-PRON-"
           (mkWorld (__init__ [VStr "run"]) [running; him] [])
           (mkWorld (__init__ [VStr "run"]) [with_lemma running (VStr "run"); him]
              [EvLemmatize "VERB" "running"; EvSetLemma 0 (VStr "run")])
           1 him).
  - discriminate.
  - reflexivity.
  - reflexivity.
  - reflexivity.
Defined.

(** A second run: the store is the one a first run of [__call__] has left;
    the token came with the lemma "goose" and the lemmatizer answers with
    the empty string. *)
Lemma call_falsy_lemma_kept_witness :
  call_body "-PRON-" 0
    (__call__ "-PRON-" (mkWorld (__init__ [VStr ""]) [geese] [])).2 =
    (Ok tt,
     lemmatized (__call__ "-PRON-" (mkWorld (__init__ [VStr ""]) [geese] [])).2
       "NOUN" "geese" [VStr ""]) /\
  doc (lemmatized (__call__ "-PRON-" (mkWorld (__init__ [VStr ""]) [geese] [])).2
         "NOUN" "geese" [VStr ""]) =
    doc (__call__ "-PRON-" (mkWorld (__init__ [VStr ""]) [geese] [])).2 /\
  doc (__call__ "-PRON-"
         (__call__ "-PRON-" (mkWorld (__init__ [VStr ""]) [geese] [])).2).2 !! 0 =
    Some geese.
Proof.
  apply (call_falsy_lemma_kept "-PRON-"
           (__call__ "-PRON-" (mkWorld (__init__ [VStr ""]) [geese] [])).2
           (__call__ "-PRON-" (mkWorld (__init__ [VStr ""]) [geese] [])).2
           (lemmatized (__call__ "-PRON-" (mkWorld (__init__ [VStr ""]) [geese] [])).2
              "NOUN" "geese" [VStr ""])
           0 geese (VStr "")).
  - reflexivity.
  - reflexivity.
  - reflexivity.
  - reflexivity.
Defined.

(** The lemma "0" is written. *)
Lemma call_writes_unless_empty_witness :
  call_body "-PRON-" 0 (mkWorld (__init__ [VStr "0"]) [zero] []) =
    (Ok tt,
     if decide (VStr "0" = VStr "" \/ VStr "0" = VNone)
     then lemmatized (mkWorld (__init__ [VStr "0"]) [zero] []) "NUM" "nul" [VStr "0"]
     else written
            (lemmatized (mkWorld (__init__ [VStr "0"]) [zero] []) "NUM" "nul" [VStr "0"])
            0 zero (VStr "0")) /\
  doc (__call__ "-PRON-" (mkWorld (__init__ [VStr "0"]) [zero] [])).2 !! 0 =
    Some (if decide (VStr "0" = VStr "" \/ VStr "0" = VNone)
          then zero else with_lemma zero (VStr "0")) /\
  written
    (lemmatized (mkWorld (__init__ [VStr "0"]) [zero] []) "NUM" "nul" [VStr "0"])
    0 zero (VStr "0") <>
  lemmatized (mkWorld (__init__ [VStr "0"]) [zero] []) "NUM" "nul" [VStr "0"].
Proof.
  apply (call_writes_unless_empty "-PRON-"
           (mkWorld (__init__ [VStr "0"]) [zero] [])
           (mkWorld (__init__ [VStr "0"]) [zero] [])
           (lemmatized (mkWorld (__init__ [VStr "0"]) [zero] []) "NUM" "nul" [VStr "0"])
           0 zero (VStr "0")).
  - reflexivity.
  - reflexivity.
  - reflexivity.
Defined.

(** The canned lemmatizer, as long as it holds a candidate. *)
Lemma call_total_witness :
  (forall token : Token,
     exists v w',
       _get_lemma token (mkWorld (__init__ [VStr "run"]) [running; him] []) =
         (Ok v, w')) /\
  (exists w',
     __call__ "-PRON-" (mkWorld (__init__ [VStr "run"]) [running; him] []) =
       (Ok tt, w') /\
     _internal (self w') <> []).
Proof.
  apply (call_total "-PRON-" (fun l : list value => l <> [])
           (mkWorld (__init__ [VStr "run"]) [running; him] [])).
  - intros l pos word Hl. exists l, l. repeat split; assumption.
  - discriminate.
Defined.

Lemma get_lemma_deterministic_witness :
  (_get_lemma sheep (mkWorld (__init__ [VStr "sheep"; VStr "Sheep"]) [sheep] [])).1 =
    (_get_lemma (with_lemma sheep (VStr "ewe"))
       (mkWorld (__init__ [VStr "sheep"; VStr "Sheep"]) [him]
          [EvSetLemma 0 (VStr "-PRON-")])).1 /\
  doc (_get_lemma sheep
         (mkWorld (__init__ [VStr "sheep"; VStr "Sheep"]) [sheep] [])).2 = [sheep] /\
  self (_get_lemma sheep
          (mkWorld (__init__ [VStr "sheep"; VStr "Sheep"]) [sheep] [])).2 =
    __init__ [VStr "sheep"; VStr "Sheep"] /\
  (_get_lemma (with_lemma sheep (VStr "ewe"))
     (_get_lemma sheep
        (mkWorld (__init__ [VStr "sheep"; VStr "Sheep"]) [sheep] [])).2).1 =
    (_get_lemma sheep (mkWorld (__init__ [VStr "sheep"; VStr "Sheep"]) [sheep] [])).1.
Proof.
  apply (get_lemma_deterministic sheep (with_lemma sheep (VStr "ewe"))
           (mkWorld (__init__ [VStr "sheep"; VStr "Sheep"]) [sheep] [])
           (mkWorld (__init__ [VStr "sheep"; VStr "Sheep"]) [him]
              [EvSetLemma 0 (VStr "-PRON-")])).
  - reflexivity.
  - reflexivity.
  - reflexivity.
  - reflexivity.
  - reflexivity.
Defined.

(** Danish is bundled, "xx" is not. *)
Lemma load_unbundled_witness :
  load (load_resources ({["da" := [VStr "hest"]]} : gmap string (list value)))
    (Some "xx") = Raise ResourceNotFoundError /\
  (forall code : option string,
     load (load_resources ({["da" := [VStr "hest"]]} : gmap string (list value)))
       code =
       match ({["da" := [VStr "hest"]]} : gmap string (list value))
               !! default "da" code with
       | Some lemmatizer => Ok (__init__ lemmatizer)
       | None => Raise ResourceNotFoundError
       end) /\
  (forall (load_lang : string -> outcome (list value)) (code : option string),
     load load_lang code =
       match load_lang (default "da" code) with
       | Ok lemmatizer => Ok (__init__ lemmatizer)
       | Raise e => Raise e
       end).
Proof.
  apply (load_unbundled
           ({["da" := [VStr "hest"]]} : gmap string (list value)) "xx").
  vm_compute. reflexivity.
Defined.

(** ** The further theorems at concrete inputs *)

Local Abbreviation verbs := [("running", [VStr "run"]); ("sheep", [])].

Lemma get_lemma_from_candidates_witness :
  VStr "Sheep" ∈ [VStr "sheep"; VStr "Sheep"] /\
  (VStr "Sheep" <> VStr "sheep" \/
   length [VStr "sheep"; VStr "Sheep"] = 1 \/
   Forall (fun c => c = VStr "sheep") [VStr "sheep"; VStr "Sheep"]).
Proof.
  apply (get_lemma_from_candidates sheep
           (mkWorld (__init__ [VStr "sheep"; VStr "Sheep"]) [sheep] [])
           (lemmatized (mkWorld (__init__ [VStr "sheep"; VStr "Sheep"]) [sheep] [])
              "NOUN" "sheep" [VStr "sheep"; VStr "Sheep"])
           [VStr "sheep"; VStr "Sheep"] [VStr "sheep"; VStr "Sheep"]
           (VStr "Sheep")).
  - reflexivity.
  - reflexivity.
Defined.

Lemma call_only_sets_lemmas_witness :
  length (doc (__call__ "-PRON-"
                 (mkWorld (__init__ [VStr "run"]) [running; him] [])).2) = 2 /\
  exists v,
    doc (__call__ "-PRON-"
           (mkWorld (__init__ [VStr "run"]) [running; him] [])).2 !! 1 =
      Some (with_lemma him v) /\
    (v = VStr "" \/ truthy v = true).
Proof.
  apply (call_only_sets_lemmas "-PRON-"
           (mkWorld (__init__ [VStr "run"]) [running; him] []) 1 him).
  reflexivity.
Defined.

(** The table knows "running" and not "geese": the run raises at the
    second token, after it has written the lemma of the first. *)
Lemma call_lemmatize_raises_witness :
  __call__ "-PRON-" (mkWorld (__init__ verbs) [running; geese; him] []) =
    (Raise (OtherError "KeyError"),
     lemmatized
       (mkWorld (__init__ verbs) [with_lemma running (VStr "run"); geese; him]
          [EvLemmatize "VERB" "running"; EvSetLemma 0 (VStr "run")])
       "NOUN" "geese" verbs) /\
  drop 1 (doc (__call__ "-PRON-"
                 (mkWorld (__init__ verbs) [running; geese; him] [])).2) =
    drop 1 [running; geese; him] /\
  take 1 (doc (__call__ "-PRON-"
                 (mkWorld (__init__ verbs) [running; geese; him] [])).2) =
    take 1 [with_lemma running (VStr "run"); geese; him].
Proof.
  apply (call_lemmatize_raises "-PRON-"
           (mkWorld (__init__ verbs) [running; geese; him] [])
           (mkWorld (__init__ verbs) [with_lemma running (VStr "run"); geese; him]
              [EvLemmatize "VERB" "running"; EvSetLemma 0 (VStr "run")])
           1 geese (OtherError "KeyError") verbs).
  - reflexivity.
  - discriminate.
  - reflexivity.
  - reflexivity.
Defined.

(** The table has "sheep" with no candidate. *)
Lemma call_no_candidates_witness :
  __call__ "-PRON-" (mkWorld (__init__ verbs) [running; sheep; him] []) =
    (Raise IndexError,
     lemmatized
       (mkWorld (__init__ verbs) [with_lemma running (VStr "run"); sheep; him]
          [EvLemmatize "VERB" "running"; EvSetLemma 0 (VStr "run")])
       "NOUN" "sheep" verbs) /\
  drop 1 (doc (__call__ "-PRON-"
                 (mkWorld (__init__ verbs) [running; sheep; him] [])).2) =
    drop 1 [running; sheep; him].
Proof.
  apply (call_no_candidates "-PRON-"
           (mkWorld (__init__ verbs) [running; sheep; him] [])
           (mkWorld (__init__ verbs) [with_lemma running (VStr "run"); sheep; him]
              [EvLemmatize "VERB" "running"; EvSetLemma 0 (VStr "run")])
           1 sheep verbs).
  - reflexivity.
  - discriminate.
  - reflexivity.
  - reflexivity.
Defined.

Lemma call_raises_only_witness :
  exists i wi t l',
    reaches "-PRON-" (mkWorld (__init__ verbs) [running; geese; him] []) i wi /\
    [running; geese; him] !! i = Some t /\
    pos_ t <> "PRON" /\
    lemmatized
      (mkWorld (__init__ verbs) [with_lemma running (VStr "run"); geese; him]
         [EvLemmatize "VERB" "running"; EvSetLemma 0 (VStr "run")])
      "NOUN" "geese" verbs = lemmatized wi (pos_ t) (text t) l' /\
    (lemmatize (_internal (self wi)) (pos_ t) (text t) =
       (Raise (OtherError "KeyError"), l') \/
     (OtherError "KeyError" = IndexError /\
      lemmatize (_internal (self wi)) (pos_ t) (text t) = (Ok [], l'))).
Proof.
  apply (call_raises_only "-PRON-"
           (mkWorld (__init__ verbs) [running; geese; him] [])
           (lemmatized
              (mkWorld (__init__ verbs) [with_lemma running (VStr "run"); geese; him]
                 [EvLemmatize "VERB" "running"; EvSetLemma 0 (VStr "run")])
              "NOUN" "geese" verbs)
           (OtherError "KeyError")).
  reflexivity.
Defined.

Lemma call_run_tokens_witness :
  (__call__ "-PRON-" (mkWorld (__init__ [VStr "run"]) [running; him] [])).1 =
    (run_tokens "-PRON-" (__init__ [VStr "run"]) [running; him]).1 /\
  doc (__call__ "-PRON-" (mkWorld (__init__ [VStr "run"]) [running; him] [])).2 =
    (run_tokens "-PRON-" (__init__ [VStr "run"]) [running; him]).2 /\
  self (__call__ "-PRON-" (mkWorld (__init__ [VStr "run"]) [running; him] [])).2 =
    __init__ [VStr "run"].
Proof.
  apply (call_run_tokens "-PRON-"
           (mkWorld (__init__ [VStr "run"]) [running; him] [])).
  intros l pos word. reflexivity.
Defined.

Lemma call_twice_witness :
  doc (__call__ "-PRON-"
         (__call__ "-PRON-"
            (mkWorld (__init__ verbs) [running; geese; him] [])).2).2 =
    doc (__call__ "-PRON-"
           (mkWorld (__init__ verbs) [running; geese; him] [])).2 /\
  (__call__ "-PRON-"
     (__call__ "-PRON-"
        (mkWorld (__init__ verbs) [running; geese; him] [])).2).1 =
    (__call__ "-PRON-" (mkWorld (__init__ verbs) [running; geese; him] [])).1.
Proof.
  apply (call_twice "-PRON-"
           (mkWorld (__init__ verbs) [running; geese; him] [])).
  intros l pos word. simpl. destruct (table_lookup l word); reflexivity.
Defined.

Lemma load_default_witness :
  load (load_resources ({["da" := [VStr "hest"]]} : gmap string (list value)))
    None = Ok (__init__ [VStr "hest"]) /\
  load (load_resources ({["da" := [VStr "hest"]]} : gmap string (list value)))
    None =
  load (load_resources ({["da" := [VStr "hest"]]} : gmap string (list value)))
    (Some "da").
Proof.
  apply (load_default
           (load_resources ({["da" := [VStr "hest"]]} : gmap string (list value)))
           [VStr "hest"]).
  vm_compute. reflexivity.
Defined.

End Component.
